(* Shallow embedding of src/main.go: the gzip / JSON batch pipeline driven by
   an ants worker pool (concurrentDecompressMultipleFiles, findGzFiles,
   processGzFile, processCrossrefItem). *)

From Stdlib Require Import String Ascii List ZArith Lia.
Import ListNotations.
Open Scope Z_scope.
Open Scope string_scope.
Open Scope list_scope.

(* ------------------------------------------------------------------ *)
(** * Data types of main.go *)

Record CrossrefItem := mkCrossrefItem {
  DOI : string;
  Title : list string;
  ReferencesCount : Z;
  Author : list (string * string)   (* (given, family) *)
}.

Record Result := mkResult { Items : list CrossrefItem }.

Record Task := mkTask { FilePath : string; OutputDir : string }.

(** The JSON values a [json.Decoder] reads one after another from the
    decompressed stream: each [Decode] call either yields the next value
    (decoded into a [Result]), reports [io.EOF] at a clean end of stream,
    or reports an error (syntax error, value cut off by the end of the
    stream, gzip error surfacing through the reader). *)
Inductive JsonStream :=
| JEnd
| JValue (item : Result) (rest : JsonStream)
| JErr (e : string).

(** What [os.Open] followed by [gzip.NewReader] finds at a path. *)
Inductive GzFile :=
| GzOpenErr (e : string)       (* os.Open fails *)
| GzHeaderErr (e : string)     (* gzip.NewReader fails on the header *)
| GzData (s : JsonStream).     (* a gzip stream whose content decodes as s *)

(** The three [fmt.Errorf] wrappings of processGzFile; each carries the path. *)
Inductive ErrKind := EOpen | EHeader | EDecode.

Record GzErr := mkGzErr { err_kind : ErrKind; err_inner : string; err_path : string }.

(** Lines written through the logger. *)
Inductive LogLine :=
| LFindErr (e : string)                    (* "Failed to find GZ files: %v" *)
| LProcessing (path : string)              (* "Processing file: %s" *)
| LSubmitErr (path : string) (e : string)  (* "Failed to submit task for file %s: %v" *)
| LTaskErr (path : string) (e : GzErr)     (* "Error processing file %s: %v" *)
| LItem (it : CrossrefItem) (path : string). (* "DOI: %s, Title: %v, ..." *)

(** Outcome of concurrentDecompressMultipleFiles. *)
Inductive CoordResult :=
| RFindErr (e : string)       (* "failed to find GZ files: %w" *)
| RPoolErr (e : string)       (* "failed to create ants pool: %w" *)
| RCountErr (n : Z)           (* "encountered %d errors during decompression" *)
| ROk.                        (* nil *)

(* ------------------------------------------------------------------ *)
(** * findGzFiles *)

(** One callback of [filepath.Walk]: a visited entry, or an error passed to
    the walk function (which findGzFiles returns, stopping the walk). *)
Inductive WalkEvent :=
| WEntry (path : string) (isDir : bool)
| WErr (e : string).

(** [filepath.Ext]: the suffix from the last '.' of the last path element. *)
Fixpoint ext_rev (r acc : list ascii) : list ascii :=
  match r with
  | [] => []
  | c :: r' =>
      if Ascii.eqb c "/"%char then []
      else if Ascii.eqb c "."%char then c :: acc
      else ext_rev r' (c :: acc)
  end.

Definition Ext (path : string) : string :=
  string_of_list_ascii (ext_rev (rev (list_ascii_of_string path)) []).

Fixpoint walk_collect (evs : list WalkEvent) (files : list string)
  : list string * option string :=
  match evs with
  | [] => (files, None)
  | WErr e :: _ => (files, Some e)
  | WEntry p d :: evs' =>
      walk_collect evs'
        (if andb (negb d) (String.eqb (Ext p) ".gz") then files ++ [p] else files)
  end.

Definition findGzFiles (walk : list WalkEvent) : list string * option string :=
  walk_collect walk [].

(* ------------------------------------------------------------------ *)
(** * processGzFile and processCrossrefItem *)

Definition processCrossrefItem (item : Result) (filePath : string) : list LogLine :=
  map (fun it => LItem it filePath) (Items item).

(** The [for] loop of processGzFile over [decoder.Decode]. *)
Fixpoint decodeLoop (filePath : string) (s : JsonStream) : list LogLine * option GzErr :=
  match s with
  | JEnd => ([], None)
  | JErr e => ([], Some (mkGzErr EDecode e filePath))
  | JValue item rest =>
      let '(l, r) := decodeLoop filePath rest in
      (processCrossrefItem item filePath ++ l, r)
  end.

Definition processGzFile (osOpen : string -> GzFile) (task : Task)
  : list LogLine * option GzErr :=
  let filePath := FilePath task in
  match osOpen filePath with
  | GzOpenErr e => ([], Some (mkGzErr EOpen e filePath))
  | GzHeaderErr e => ([], Some (mkGzErr EHeader e filePath))
  | GzData s => decodeLoop filePath s
  end.

(** Helpers on streams: the records (items) across all decoded values, and
    whether the stream ends cleanly with io.EOF. *)
Fixpoint records (s : JsonStream) : list CrossrefItem :=
  match s with
  | JValue item rest => Items item ++ records rest
  | _ => []
  end.

Fixpoint stream_ok (s : JsonStream) : bool :=
  match s with
  | JEnd => true
  | JValue _ rest => stream_ok rest
  | JErr _ => false
  end.

Fixpoint stream_err (s : JsonStream) : option string :=
  match s with
  | JEnd => None
  | JValue _ rest => stream_err rest
  | JErr e => Some e
  end.

(* ------------------------------------------------------------------ *)
(** * The ants pool, as far as this program uses it *)

(** [ants.NewPool(size, ants.WithPreAlloc(preAlloc))]: a non-positive size
    means an unbounded pool (-1), which pre-allocation refuses with
    ErrInvalidPreAllocSize. Returns the capacity or the error. The pool
    stores the capacity as int32(size); sizes are taken below 2^31 here,
    as main's 2 * NumCPU is. *)
Definition ants_NewPool (size : Z) (preAlloc : bool) : Z + string :=
  let size := if Z.leb size 0 then -1 else size in
  if andb preAlloc (Z.eqb size (-1)) then inr "can not set up a negative capacity under PreAlloc mode"
  else inl size.

(** [atomic.AddUint32(&errCount, 1)]: a uint32 wraps around. *)
Definition u32_inc (c : Z) : Z := (c + 1) mod 2 ^ 32.

(* ------------------------------------------------------------------ *)
(** * concurrentDecompressMultipleFiles as a transition system *)

(** Where the coordinator goroutine is: before discovery, in the [for]
    loop over the remaining files (with the pool capacity), between the two
    [atomic.LoadUint32] of the report (line 106-107), or returned. *)
Inductive Phase :=
| PStart
| PLoop (cap : Z) (rest : list string)
| PReport
| PDone (r : CoordResult).

(** The shared state: the coordinator's position, the shared counter
    [errCount], the tasks handed to pool workers and not yet finished, and
    the log. *)
Record St := mkSt {
  phase : Phase;
  errCount : Z;
  inflight : list Task;
  logs : list LogLine
}.

Definition init : St := mkSt PStart 0 [] [].

(** Count of "Processing file" lines: one per submission attempt. *)
Fixpoint countProcessing (l : list LogLine) : nat :=
  match l with
  | [] => O
  | LProcessing _ :: l' => S (countProcessing l')
  | _ :: l' => countProcessing l'
  end.

Section Run.

Variable outputDir : string.
Variable maxWorkers : Z.
(** the callbacks of filepath.Walk over inputDir *)
Variable walk : list WalkEvent.
(** the file system seen by os.Open / gzip.NewReader *)
Variable osOpen : string -> GzFile.

(** The closure submitted for a task, run by a pool worker to completion. *)
Definition runTask (t : Task) (st : St) : St :=
  let '(l, r) := processGzFile osOpen t in
  match r with
  | None => mkSt (phase st) (errCount st) (inflight st) (logs st ++ l)
  | Some e =>
      mkSt (phase st) (u32_inc (errCount st)) (inflight st)
        (logs st ++ l ++ [LTaskErr (FilePath t) e])
  end.

(** One atomic step of the whole program: a step of the coordinator, or a
    pool worker running one in-flight task. [pool.Submit] blocks while all
    workers are busy; a rejected submission (ErrPoolClosed, ErrPoolOverload)
    is allowed at any time. The deferred [pool.Release] runs after the
    return and does not wait for running tasks, so workers keep stepping
    after [PDone]. *)
Inductive step : St -> St -> Prop :=
| StepFindErr st files e :
    phase st = PStart ->
    findGzFiles walk = (files, Some e) ->
    step st (mkSt (PDone (RFindErr e)) (errCount st) (inflight st)
               (logs st ++ [LFindErr e]))
| StepPoolErr st files e :
    phase st = PStart ->
    findGzFiles walk = (files, None) ->
    ants_NewPool maxWorkers true = inr e ->
    step st (mkSt (PDone (RPoolErr e)) (errCount st) (inflight st) (logs st))
| StepPoolOk st files cap :
    phase st = PStart ->
    findGzFiles walk = (files, None) ->
    ants_NewPool maxWorkers true = inl cap ->
    step st (mkSt (PLoop cap files) (errCount st) (inflight st) (logs st))
| StepSubmit st cap f rest :
    phase st = PLoop cap (f :: rest) ->
    (cap = -1 \/ Z.of_nat (length (inflight st)) < cap) ->
    step st (mkSt (PLoop cap rest) (errCount st)
               (inflight st ++ [mkTask f outputDir])
               (logs st ++ [LProcessing f]))
| StepSubmitFail st cap f rest e :
    phase st = PLoop cap (f :: rest) ->
    step st (mkSt (PLoop cap rest) (u32_inc (errCount st)) (inflight st)
               (logs st ++ [LProcessing f; LSubmitErr f e]))
| StepCheckZero st cap :
    phase st = PLoop cap [] ->
    errCount st = 0 ->
    step st (mkSt (PDone ROk) (errCount st) (inflight st) (logs st))
| StepCheckPos st cap :
    phase st = PLoop cap [] ->
    errCount st > 0 ->
    step st (mkSt PReport (errCount st) (inflight st) (logs st))
| StepReport st :
    phase st = PReport ->
    step st (mkSt (PDone (RCountErr (errCount st))) (errCount st)
               (inflight st) (logs st))
| StepWorker st l1 t l2 :
    inflight st = l1 ++ t :: l2 ->
    step st (runTask t (mkSt (phase st) (errCount st) (l1 ++ l2) (logs st))).

Inductive reach : St -> Prop :=
| reach_init : reach init
| reach_step st st' : reach st -> step st st' -> reach st'.

End Run.

(** The count the caller sees: zero on success, the reported count otherwise. *)
Definition reported_count (r : CoordResult) : Z :=
  match r with
  | RCountErr n => n
  | _ => 0
  end.

(** Whether processing a file ends in an error. *)
Definition file_fails (osOpen : string -> GzFile) (outputDir path : string) : bool :=
  match snd (processGzFile osOpen (mkTask path outputDir)) with
  | Some _ => true
  | None => false
  end.

(* ------------------------------------------------------------------ *)
(** * Sample inputs *)

Definition bad_header : string -> GzFile := fun _ => GzHeaderErr "gzip: invalid header".
Definition one_file : list WalkEvent := [WEntry "in" true; WEntry "in/a.gz" false].

Example findGzFiles_one : findGzFiles one_file = (["in/a.gz"], None).
Proof. reflexivity. Qed.

Example findGzFiles_ext :
  findGzFiles [WEntry "in/x.gz.txt" false; WEntry "in/y.gz" false; WEntry "in.gz/z" false]
  = (["in/y.gz"], None).
Proof. reflexivity. Qed.

Definition item_a : CrossrefItem := mkCrossrefItem "10.1000/a" ["A"] 3 [("Ada", "Lovelace")].
Definition item_b : CrossrefItem := mkCrossrefItem "10.1000/b" ["B"; "B2"] 0 [].
Definition item_c : CrossrefItem := mkCrossrefItem "10.1000/c" [] 7 [("Alan", "Turing")].

(** three records over two decoded values *)
Definition stream_abc : JsonStream :=
  JValue (mkResult [item_a; item_b]) (JValue (mkResult [item_c]) JEnd).
(** two decoded values with no records *)
Definition stream_empty : JsonStream :=
  JValue (mkResult []) (JValue (mkResult []) JEnd).
(** one record, then a value cut off by the end of the stream *)
Definition stream_truncated : JsonStream :=
  JValue (mkResult [item_a]) (JErr "unexpected EOF").

Definition fs_sample : string -> GzFile :=
  fun p =>
    if String.eqb p "in/a.gz" then GzData stream_abc
    else if String.eqb p "in/b.gz" then GzData stream_empty
    else if String.eqb p "in/c.gz" then GzData stream_truncated
    else GzHeaderErr "gzip: invalid header".

Example processGzFile_a :
  processGzFile fs_sample (mkTask "in/a.gz" "output")
  = ([LItem item_a "in/a.gz"; LItem item_b "in/a.gz"; LItem item_c "in/a.gz"], None).
Proof. reflexivity. Qed.

Example processGzFile_c :
  snd (processGzFile fs_sample (mkTask "in/c.gz" "output"))
  = Some (mkGzErr EDecode "unexpected EOF" "in/c.gz").
Proof. reflexivity. Qed.

(* ------------------------------------------------------------------ *)
(** * Lemmas *)

Lemma decodeLoop_spec p s :
  decodeLoop p s =
  (map (fun it => LItem it p) (records s),
   match stream_err s with
   | None => None
   | Some e => Some (mkGzErr EDecode e p)
   end).
Proof.
  induction s as [|item rest IH|e]; simpl; try reflexivity.
  rewrite IH. unfold processCrossrefItem. rewrite map_app. reflexivity.
Qed.

Lemma stream_ok_no_err s : stream_ok s = true -> stream_err s = None.
Proof. induction s; simpl; intros H; auto; discriminate. Qed.

Lemma countProcessing_app l1 l2 :
  countProcessing (l1 ++ l2) = (countProcessing l1 + countProcessing l2)%nat.
Proof. induction l1 as [|[] l1 IH]; simpl; auto. Qed.

Lemma countProcessing_items p l :
  countProcessing (map (fun it => LItem it p) l) = O.
Proof. induction l; simpl; auto. Qed.

Lemma processGzFile_no_processing osOpen t :
  countProcessing (fst (processGzFile osOpen t)) = O.
Proof.
  unfold processGzFile. destruct (osOpen (FilePath t)); simpl; auto.
  rewrite decodeLoop_spec. apply countProcessing_items.
Qed.

Lemma runTask_phase osOpen t st : phase (runTask osOpen t st) = phase st.
Proof.
  unfold runTask. destruct (processGzFile osOpen t) as [l [e|]]; reflexivity.
Qed.

Lemma runTask_inflight osOpen t st : inflight (runTask osOpen t st) = inflight st.
Proof.
  unfold runTask. destruct (processGzFile osOpen t) as [l [e|]]; reflexivity.
Qed.

(* ------------------------------------------------------------------ *)
(** * Per-file processing *)

(** C3: on a valid stream (every [Decode] succeeds until io.EOF) holding K
    records across its decoded values, processGzFile writes exactly the K
    record lines of processCrossrefItem, one per record, in stream order,
    and returns nil. *)
Theorem processGzFile_valid_stream_in_order osOpen task s :
  osOpen (FilePath task) = GzData s ->
  stream_ok s = true ->
  processGzFile osOpen task
  = (map (fun it => LItem it (FilePath task)) (records s), None).
Proof.
  intros Hopen Hok. unfold processGzFile. rewrite Hopen, decodeLoop_spec.
  rewrite (stream_ok_no_err s Hok). reflexivity.
Qed.

Lemma processGzFile_valid_stream_in_order_witness :
  fs_sample (FilePath (mkTask "in/a.gz" "output")) = GzData stream_abc /\
  stream_ok stream_abc = true /\
  processGzFile fs_sample (mkTask "in/a.gz" "output")
  = (map (fun it => LItem it "in/a.gz") (records stream_abc), None).
Proof.
  split; [reflexivity | split; [reflexivity |]].
  apply (processGzFile_valid_stream_in_order fs_sample (mkTask "in/a.gz" "output")
           stream_abc); reflexivity.
Defined.

(** C6: on a valid stream with no records, processGzFile writes no record
    line and returns nil, so the task closure leaves the whole state (the
    failure counter in particular) unchanged. *)
Theorem empty_stream_is_success osOpen task s :
  osOpen (FilePath task) = GzData s ->
  stream_ok s = true ->
  records s = [] ->
  processGzFile osOpen task = ([], None) /\
  (forall st, runTask osOpen task st = st).
Proof.
  intros Hopen Hok Hnil.
  assert (Hp : processGzFile osOpen task = ([], None)).
  { rewrite (processGzFile_valid_stream_in_order osOpen task s Hopen Hok), Hnil.
    reflexivity. }
  split; [exact Hp |].
  intros [ph c inf lg]. unfold runTask. rewrite Hp. simpl.
  rewrite app_nil_r. reflexivity.
Qed.

Lemma empty_stream_is_success_witness :
  fs_sample (FilePath (mkTask "in/b.gz" "output")) = GzData stream_empty /\
  stream_ok stream_empty = true /\
  records stream_empty = [] /\
  (processGzFile fs_sample (mkTask "in/b.gz" "output") = ([], None) /\
   (forall st, runTask fs_sample (mkTask "in/b.gz" "output") st = st)).
Proof.
  split; [reflexivity | split; [reflexivity | split; [reflexivity |]]].
  apply (empty_stream_is_success fs_sample (mkTask "in/b.gz" "output") stream_empty);
    reflexivity.
Defined.

(** C7: when gzip.NewReader rejects the header, processGzFile returns at
    once the header error wrapped with the file path, with no record line
    written. *)
Theorem malformed_header_fails_immediately osOpen task e :
  osOpen (FilePath task) = GzHeaderErr e ->
  processGzFile osOpen task = ([], Some (mkGzErr EHeader e (FilePath task))).
Proof. intros Hopen. unfold processGzFile. rewrite Hopen. reflexivity. Qed.

Lemma malformed_header_fails_immediately_witness :
  fs_sample (FilePath (mkTask "in/z.gz" "output")) = GzHeaderErr "gzip: invalid header" /\
  processGzFile fs_sample (mkTask "in/z.gz" "output")
  = ([], Some (mkGzErr EHeader "gzip: invalid header" "in/z.gz")).
Proof.
  split; [reflexivity |].
  apply (malformed_header_fails_immediately fs_sample (mkTask "in/z.gz" "output")).
  reflexivity.
Defined.

(** C8: when a [Decode] fails (e.g. a value cut off by the end of the
    stream), processGzFile returns the decode error for the whole file,
    never nil; the task closure logs it and adds exactly one to the
    failure counter. The record lines of the values decoded before the
    failure have been written by processCrossrefItem as they came. *)
Theorem truncated_stream_fails_whole_file osOpen task s e :
  osOpen (FilePath task) = GzData s ->
  stream_err s = Some e ->
  processGzFile osOpen task
  = (map (fun it => LItem it (FilePath task)) (records s),
     Some (mkGzErr EDecode e (FilePath task))) /\
  (forall st,
     errCount (runTask osOpen task st) = u32_inc (errCount st) /\
     logs (runTask osOpen task st)
     = logs st ++ map (fun it => LItem it (FilePath task)) (records s)
         ++ [LTaskErr (FilePath task) (mkGzErr EDecode e (FilePath task))]).
Proof.
  intros Hopen Herr.
  assert (Hp : processGzFile osOpen task
               = (map (fun it => LItem it (FilePath task)) (records s),
                  Some (mkGzErr EDecode e (FilePath task)))).
  { unfold processGzFile. rewrite Hopen, decodeLoop_spec, Herr. reflexivity. }
  split; [exact Hp |].
  intros st. unfold runTask. rewrite Hp. split; reflexivity.
Qed.

Lemma truncated_stream_fails_whole_file_witness :
  fs_sample (FilePath (mkTask "in/c.gz" "output")) = GzData stream_truncated /\
  stream_err stream_truncated = Some "unexpected EOF" /\
  (processGzFile fs_sample (mkTask "in/c.gz" "output")
   = (map (fun it => LItem it "in/c.gz") (records stream_truncated),
      Some (mkGzErr EDecode "unexpected EOF" "in/c.gz")) /\
   (forall st,
      errCount (runTask fs_sample (mkTask "in/c.gz" "output") st) = u32_inc (errCount st) /\
      logs (runTask fs_sample (mkTask "in/c.gz" "output") st)
      = logs st ++ map (fun it => LItem it "in/c.gz") (records stream_truncated)
          ++ [LTaskErr "in/c.gz" (mkGzErr EDecode "unexpected EOF" "in/c.gz")])).
Proof.
  split; [reflexivity | split; [reflexivity |]].
  apply (truncated_stream_fails_whole_file fs_sample (mkTask "in/c.gz" "output")
           stream_truncated "unexpected EOF"); reflexivity.
Defined.

(* ------------------------------------------------------------------ *)
(** * The coordinator *)

Lemma step_from_empty_done od mw walk osOpen r c lg st' :
  ~ step od mw walk osOpen (mkSt (PDone r) c [] lg) st'.
Proof.
  intros S. inversion S; subst; simpl in *; try discriminate.
  eapply app_cons_not_nil. eassumption.
Qed.

Lemma no_worker_step_init l1 t l2 :
  inflight init <> l1 ++ t :: l2.
Proof. simpl. apply app_cons_not_nil. Qed.

(** C4: when the walk of findGzFiles fails, the only step the program can
    take returns the discovery error: no pool, no submission, no task, the
    counter stays 0 and the only log line is the discovery failure. *)
Theorem discovery_error_aborts_run outputDir maxWorkers walk osOpen files e :
  findGzFiles walk = (files, Some e) ->
  forall st, reach outputDir maxWorkers walk osOpen st ->
  st = init \/ st = mkSt (PDone (RFindErr e)) 0 [] [LFindErr e].
Proof.
  intros Hf st R. induction R as [|st st' R IH S]; [left; reflexivity|].
  right. destruct IH as [-> | ->].
  - inversion S; subst; simpl in *; try discriminate.
    + rewrite Hf in *. match goal with H : (_, _) = (_, _) |- _ => injection H end.
      intros; subst; reflexivity.
    + rewrite Hf in *. discriminate.
    + rewrite Hf in *. discriminate.
    + exfalso. eapply (no_worker_step_init l1 t l2); eassumption.
  - exfalso. eapply step_from_empty_done; exact S.
Qed.

Lemma discovery_error_aborts_run_witness :
  findGzFiles [WEntry "in" true; WErr "lstat in/x: permission denied"]
  = ([], Some "lstat in/x: permission denied") /\
  (forall st,
     reach "output" 4 [WEntry "in" true; WErr "lstat in/x: permission denied"] fs_sample st ->
     st = init \/
     st = mkSt (PDone (RFindErr "lstat in/x: permission denied")) 0 []
            [LFindErr "lstat in/x: permission denied"]).
Proof.
  split; [reflexivity |].
  apply (discovery_error_aborts_run "output" 4
           [WEntry "in" true; WErr "lstat in/x: permission denied"] fs_sample []).
  reflexivity.
Defined.

(** C10: when discovery succeeds but ants.NewPool fails, the only step the
    program can take returns the wrapped pool error: the counter stays 0,
    nothing is logged, submitted, opened or decoded. *)
Theorem pool_error_aborts_run outputDir maxWorkers walk osOpen files e :
  findGzFiles walk = (files, None) ->
  ants_NewPool maxWorkers true = inr e ->
  forall st, reach outputDir maxWorkers walk osOpen st ->
  st = init \/ st = mkSt (PDone (RPoolErr e)) 0 [] [].
Proof.
  intros Hf Hp st R. induction R as [|st st' R IH S]; [left; reflexivity|].
  right. destruct IH as [-> | ->].
  - inversion S; subst; simpl in *; try discriminate.
    + rewrite Hf in *. discriminate.
    + rewrite Hp in *. match goal with H : inr _ = inr _ |- _ => injection H end.
      intros; subst; reflexivity.
    + rewrite Hp in *. discriminate.
    + exfalso. eapply (no_worker_step_init l1 t l2); eassumption.
  - exfalso. eapply step_from_empty_done; exact S.
Qed.

Lemma pool_error_aborts_run_witness :
  findGzFiles one_file = (["in/a.gz"], None) /\
  ants_NewPool 0 true = inr "can not set up a negative capacity under PreAlloc mode" /\
  (forall st, reach "output" 0 one_file fs_sample st ->
     st = init \/
     st = mkSt (PDone (RPoolErr "can not set up a negative capacity under PreAlloc mode")) 0 [] []).
Proof.
  split; [reflexivity | split; [reflexivity |]].
  apply (pool_error_aborts_run "output" 0 one_file fs_sample ["in/a.gz"]); reflexivity.
Defined.

(** C5: a coordinator step on file [f] whose submission is rejected (no
    task is added to the pool) adds exactly one to the counter, logs the
    submission failure after the "Processing file" line, and moves the loop
    on to the next file, which can then be submitted as usual. *)
Theorem submit_failure_counted_and_skipped outputDir maxWorkers walk osOpen
    st st' cap f rest :
  step outputDir maxWorkers walk osOpen st st' ->
  phase st = PLoop cap (f :: rest) ->
  phase st' <> phase st ->
  length (inflight st') = length (inflight st) ->
  errCount st' = u32_inc (errCount st) /\
  inflight st' = inflight st /\
  (exists e, logs st' = logs st ++ [LProcessing f; LSubmitErr f e]) /\
  phase st' = PLoop cap rest /\
  (forall g rest', rest = g :: rest' ->
     (cap = -1 \/ Z.of_nat (length (inflight st')) < cap) ->
     exists st'', step outputDir maxWorkers walk osOpen st' st'' /\
       phase st'' = PLoop cap rest' /\
       inflight st'' = inflight st' ++ [mkTask g outputDir]).
Proof.
  intros S Hph Hne Hlen.
  assert (Hnext : phase st' = PLoop cap rest ->
    forall g rest', rest = g :: rest' ->
     (cap = -1 \/ Z.of_nat (length (inflight st')) < cap) ->
     exists st'', step outputDir maxWorkers walk osOpen st' st'' /\
       phase st'' = PLoop cap rest' /\
       inflight st'' = inflight st' ++ [mkTask g outputDir]).
  { intros Hph' g rest' -> Hcap. eexists. split.
    - eapply StepSubmit; eassumption.
    - split; reflexivity. }
  inversion S; subst; simpl in *; try congruence.
  - rewrite Hph in *. match goal with H : PLoop _ _ = PLoop _ _ |- _ => injection H end.
    intros; subst. rewrite length_app in Hlen. simpl in Hlen. lia.
  - rewrite Hph in *. match goal with H : PLoop _ _ = PLoop _ _ |- _ => injection H end.
    intros; subst. split; [reflexivity | split; [reflexivity | split]].
    + eexists; reflexivity.
    + split; [reflexivity |]. apply Hnext. reflexivity.
  - rewrite runTask_phase in Hne. simpl in Hne. congruence.
Qed.

Definition loop_two : St := mkSt (PLoop 1 ["in/a.gz"; "in/b.gz"]) 0 [] [].
Definition loop_two_rejected : St :=
  mkSt (PLoop 1 ["in/b.gz"]) 1 []
    [LProcessing "in/a.gz"; LSubmitErr "in/a.gz" "ants: this pool has been closed"].

Lemma loop_two_step :
  step "output" 1 one_file fs_sample loop_two loop_two_rejected.
Proof.
  exact (StepSubmitFail "output" 1 one_file fs_sample loop_two 1 "in/a.gz" ["in/b.gz"]
           "ants: this pool has been closed" eq_refl).
Qed.

Lemma submit_failure_counted_and_skipped_witness :
  step "output" 1 one_file fs_sample loop_two loop_two_rejected /\
  phase loop_two = PLoop 1 ["in/a.gz"; "in/b.gz"] /\
  phase loop_two_rejected <> phase loop_two /\
  length (inflight loop_two_rejected) = length (inflight loop_two) /\
  errCount loop_two_rejected = u32_inc (errCount loop_two) /\
  inflight loop_two_rejected = inflight loop_two /\
  (exists e, logs loop_two_rejected
             = logs loop_two ++ [LProcessing "in/a.gz"; LSubmitErr "in/a.gz" e]) /\
  phase loop_two_rejected = PLoop 1 ["in/b.gz"] /\
  (forall g rest', ["in/b.gz"] = g :: rest' ->
     (1 = -1 \/ Z.of_nat (length (inflight loop_two_rejected)) < 1) ->
     exists st'', step "output" 1 one_file fs_sample loop_two_rejected st'' /\
       phase st'' = PLoop 1 rest' /\
       inflight st'' = inflight loop_two_rejected ++ [mkTask g "output"]).
Proof.
  split; [exact loop_two_step |].
  split; [reflexivity |]. split; [discriminate |]. split; [reflexivity |].
  apply (submit_failure_counted_and_skipped "output" 1 one_file fs_sample
           loop_two loop_two_rejected 1 "in/a.gz" ["in/b.gz"]).
  - exact loop_two_step.
  - reflexivity.
  - discriminate.
  - reflexivity.
Defined.

(** The counter invariant: the counter is a uint32 holding [raw]
    increments, and every submission attempt ("Processing file" line) has
    either produced at most one increment or is still in flight. *)
Definition counter_inv (st : St) : Prop :=
  exists raw : nat,
    errCount st = Z.of_nat raw mod 2 ^ 32 /\
    (raw + length (inflight st) <= countProcessing (logs st))%nat.

Lemma u32_inc_raw (raw : nat) :
  u32_inc (Z.of_nat raw mod 2 ^ 32) = Z.of_nat (S raw) mod 2 ^ 32.
Proof.
  unfold u32_inc. rewrite Nat2Z.inj_succ, Z.add_mod_idemp_l by lia.
  f_equal.
Qed.

Lemma counter_inv_step od mw walk osOpen st st' :
  counter_inv st -> step od mw walk osOpen st st' -> counter_inv st'.
Proof.
  intros [raw [Hc Hle]] Hs.
  inversion Hs; subst; unfold counter_inv; cbn [errCount inflight logs phase] in *.
  - exists raw. rewrite countProcessing_app. simpl. split; [exact Hc | lia].
  - exists raw. split; [exact Hc | lia].
  - exists raw. split; [exact Hc | lia].
  - exists raw. rewrite countProcessing_app, length_app. simpl. split; [exact Hc | lia].
  - exists (S raw). rewrite countProcessing_app, Hc, u32_inc_raw. simpl. split; [reflexivity | lia].
  - exists raw. split; [exact Hc | lia].
  - exists raw. split; [exact Hc | lia].
  - exists raw. split; [exact Hc | lia].
  - match goal with H : inflight st = _ |- _ => rewrite H in Hle end.
    rewrite length_app in Hle. simpl in Hle.
    unfold runTask.
    pose proof (processGzFile_no_processing osOpen t) as Hz.
    destruct (processGzFile osOpen t) as [l [e|]]; cbn [fst snd errCount inflight logs phase] in *.
    + exists (S raw). rewrite Hc, u32_inc_raw, !countProcessing_app. simpl.
      rewrite length_app. split; [reflexivity | lia].
    + exists raw. rewrite countProcessing_app, length_app. split; [exact Hc | lia].
Qed.

(** C9: at every reachable point of a run, the failure counter is at most
    the number of submission attempts made so far (the "Processing file"
    lines): each file adds at most one increment, from a rejected
    submission or from its task, never both. *)
Theorem failures_bounded_by_submissions outputDir maxWorkers walk osOpen st :
  reach outputDir maxWorkers walk osOpen st ->
  0 <= errCount st <= Z.of_nat (countProcessing (logs st)).
Proof.
  intros R.
  assert (Hinv : counter_inv st).
  { induction R as [|st st' R IH S].
    - exists O. split; reflexivity.
    - eapply counter_inv_step; eassumption. }
  destruct Hinv as [raw [Hc Hle]]. rewrite Hc.
  split.
  - apply Z.mod_pos_bound. lia.
  - transitivity (Z.of_nat raw).
    + apply Z.mod_le; lia.
    + lia.
Qed.


(* ------------------------------------------------------------------ *)
(** * The report does not wait for the pool *)

(** One corrupted file, a pool of one worker: the coordinator submits the
    task, finds [errCount] still 0 and returns nil; the worker then runs
    the task and counts the failure. *)
Definition task_a : Task := mkTask "in/a.gz" "output".

Definition race_loop : St := mkSt (PLoop 1 ["in/a.gz"]) 0 [] [].
Definition race_submitted : St :=
  mkSt (PLoop 1 []) 0 [task_a] [LProcessing "in/a.gz"].
Definition race_returned : St :=
  mkSt (PDone ROk) 0 [task_a] [LProcessing "in/a.gz"].
Definition race_after : St :=
  mkSt (PDone ROk) 1 []
    [LProcessing "in/a.gz";
     LTaskErr "in/a.gz" (mkGzErr EHeader "gzip: invalid header" "in/a.gz")].

Lemma race_step_1 : step "output" 1 one_file bad_header init race_loop.
Proof. exact (StepPoolOk "output" 1 one_file bad_header init ["in/a.gz"] 1 eq_refl eq_refl eq_refl). Qed.

Lemma race_step_2 : step "output" 1 one_file bad_header race_loop race_submitted.
Proof.
  exact (StepSubmit "output" 1 one_file bad_header race_loop 1 "in/a.gz" []
           eq_refl (or_intror eq_refl)).
Qed.

Lemma race_step_3 : step "output" 1 one_file bad_header race_submitted race_returned.
Proof. exact (StepCheckZero "output" 1 one_file bad_header race_submitted 1 eq_refl eq_refl). Qed.

Lemma race_step_4 : step "output" 1 one_file bad_header race_returned race_after.
Proof. exact (StepWorker "output" 1 one_file bad_header race_returned [] task_a [] eq_refl). Qed.

Lemma reach_race_returned : reach "output" 1 one_file bad_header race_returned.
Proof.
  eapply reach_step; [| exact race_step_3].
  eapply reach_step; [| exact race_step_2].
  eapply reach_step; [| exact race_step_1].
  apply reach_init.
Qed.

Lemma one_file_fails :
  length (filter (file_fails bad_header "output") (fst (findGzFiles one_file))) = 1%nat.
Proof. reflexivity. Qed.

(** C1: with one discovered file that fails to decompress and a pool of
    one worker, a run can return nil (a reported count of 0), not 1: the
    reported count is not always the number of corrupted files. *)
Theorem failure_count_not_exact :
  ~ (forall st r,
       reach "output" 1 one_file bad_header st ->
       phase st = PDone r ->
       reported_count r
       = Z.of_nat (length (filter (file_fails bad_header "output")
                                  (fst (findGzFiles one_file))))).
Proof.
  intros H.
  specialize (H race_returned ROk reach_race_returned eq_refl).
  rewrite one_file_fails in H. simpl in H. discriminate.
Qed.

(** C2: the coordinator can return (after reading [errCount] as 0) while
    the submitted task is still in flight; that task then runs and raises
    the counter to 1 after the report was decided. *)
Theorem report_reads_counter_before_tasks_finish :
  reach "output" 1 one_file bad_header race_returned /\
  phase race_returned = PDone ROk /\
  inflight race_returned <> [] /\
  step "output" 1 one_file bad_header race_returned race_after /\
  phase race_after = PDone ROk /\
  errCount race_after = 1.
Proof.
  split; [exact reach_race_returned |].
  split; [reflexivity |]. split; [discriminate |].
  split; [exact race_step_4 |]. split; reflexivity.
Qed.

(* ------------------------------------------------------------------ *)
(** * Log accounting of a run *)

(** Paths of the "Processing file" lines, in log order. *)
Fixpoint procPaths (l : list LogLine) : list string :=
  match l with
  | [] => []
  | LProcessing p :: l' => p :: procPaths l'
  | _ :: l' => procPaths l'
  end.

(** "Failed to submit task" lines. *)
Fixpoint countSubmitErr (l : list LogLine) : nat :=
  match l with
  | [] => O
  | LSubmitErr _ _ :: l' => S (countSubmitErr l')
  | _ :: l' => countSubmitErr l'
  end.

(** "Error processing file" lines. *)
Fixpoint countTaskErr (l : list LogLine) : nat :=
  match l with
  | [] => O
  | LTaskErr _ _ :: l' => S (countTaskErr l')
  | _ :: l' => countTaskErr l'
  end.

Definition failures (l : list LogLine) : nat := (countSubmitErr l + countTaskErr l)%nat.

(** Whether the task closure of [t] ends in an error (line 96). *)
Definition failsTask (osOpen : string -> GzFile) (t : Task) : bool :=
  match snd (processGzFile osOpen t) with
  | Some _ => true
  | None => false
  end.

(** main's pool size, [runtime.NumCPU() * 2] (line 42). *)
Definition main_maxWorkers (numCPU : Z) : Z := numCPU * 2.

Lemma procPaths_app l1 l2 : procPaths (l1 ++ l2) = procPaths l1 ++ procPaths l2.
Proof. induction l1 as [|[] l1 IH]; simpl; rewrite ?IH; reflexivity. Qed.

Lemma countSubmitErr_app l1 l2 :
  countSubmitErr (l1 ++ l2) = (countSubmitErr l1 + countSubmitErr l2)%nat.
Proof. induction l1 as [|[] l1 IH]; simpl; rewrite ?IH; reflexivity. Qed.

Lemma countTaskErr_app l1 l2 :
  countTaskErr (l1 ++ l2) = (countTaskErr l1 + countTaskErr l2)%nat.
Proof. induction l1 as [|[] l1 IH]; simpl; rewrite ?IH; reflexivity. Qed.

Lemma procPaths_items p its : procPaths (map (fun it => LItem it p) its) = [].
Proof. induction its; simpl; auto. Qed.

Lemma countSubmitErr_items p its : countSubmitErr (map (fun it => LItem it p) its) = O.
Proof. induction its; simpl; auto. Qed.

Lemma countTaskErr_items p its : countTaskErr (map (fun it => LItem it p) its) = O.
Proof. induction its; simpl; auto. Qed.

Create Rewrite HintDb loglines.
#[export] Hint Rewrite procPaths_app countSubmitErr_app countTaskErr_app
  countProcessing_app length_app filter_app
  procPaths_items countSubmitErr_items countTaskErr_items countProcessing_items
  : loglines.

Lemma processGzFile_items osOpen t :
  exists its, fst (processGzFile osOpen t) = map (fun it => LItem it (FilePath t)) its.
Proof.
  unfold processGzFile. destruct (osOpen (FilePath t)).
  - exists []; reflexivity.
  - exists []; reflexivity.
  - rewrite decodeLoop_spec. eexists; reflexivity.
Qed.

Lemma ants_NewPool_prealloc m cap :
  ants_NewPool m true = inl cap -> cap = m /\ 0 < m.
Proof.
  unfold ants_NewPool. destruct (Z.leb m 0) eqn:E; simpl; [discriminate |].
  apply Z.leb_gt in E. destruct (Z.eqb m (-1)); simpl; [discriminate |].
  intros H; injection H; intros; subst; split; [reflexivity | lia].
Qed.

Lemma ants_NewPool_pos m : 0 < m -> ants_NewPool m true = inl m.
Proof.
  intros Hm. unfold ants_NewPool.
  destruct (Z.leb_spec m 0); [lia |].
  destruct (Z.eqb_spec m (-1)); [lia |]. reflexivity.
Qed.

Lemma u32_inc_nat (a b : nat) :
  a = S b -> u32_inc (Z.of_nat b mod 2 ^ 32) = Z.of_nat a mod 2 ^ 32.
Proof. intros ->. apply u32_inc_raw. Qed.

Lemma mod_zero_small (k : nat) :
  (Z.of_nat k < 2 ^ 32) -> Z.of_nat k mod 2 ^ 32 = Z.of_nat k.
Proof. intros H. apply Z.mod_small. lia. Qed.

Ltac norm_logs :=
  unfold failures in *; cbn [errCount logs inflight phase] in *;
  autorewrite with loglines in *;
  cbn [countSubmitErr countTaskErr procPaths countProcessing length filter app
       errCount logs inflight phase] in *;
  rewrite ?Nat.add_0_r, ?app_nil_r in *.

Section Invariants.

Variable outputDir : string.
Variable maxWorkers : Z.
Variable walk : list WalkEvent.
Variable osOpen : string -> GzFile.

(** What each position of the coordinator has done so far. *)
Definition phase_inv (st : St) : Prop :=
  match phase st with
  | PStart => procPaths (logs st) = [] /\ inflight st = []
  | PLoop cap rest =>
      procPaths (logs st) ++ rest = fst (findGzFiles walk) /\
      ants_NewPool maxWorkers true = inl cap
  | PReport =>
      procPaths (logs st) = fst (findGzFiles walk) /\ (0 < failures (logs st))%nat
  | PDone ROk => procPaths (logs st) = fst (findGzFiles walk)
  | PDone (RCountErr n) =>
      procPaths (logs st) = fst (findGzFiles walk) /\
      exists k, n = Z.of_nat k mod 2 ^ 32 /\ (0 < k <= countProcessing (logs st))%nat
  | PDone _ => procPaths (logs st) = [] /\ inflight st = []
  end.

Definition run_inv (st : St) : Prop :=
  errCount st = Z.of_nat (failures (logs st)) mod 2 ^ 32 /\
  (failures (logs st) + length (inflight st) <= countProcessing (logs st))%nat /\
  Z.of_nat (length (inflight st)) <= Z.max 0 maxWorkers /\
  (countSubmitErr (logs st) = O ->
     (countTaskErr (logs st) + length (filter (failsTask osOpen) (inflight st))
      = length (filter (fun f => failsTask osOpen (mkTask f outputDir))
                       (procPaths (logs st))))%nat) /\
  phase_inv st.

Lemma run_inv_init : run_inv init.
Proof.
  unfold run_inv, phase_inv; cbn. repeat split; try reflexivity; lia.
Qed.

Lemma run_inv_step st st' :
  run_inv st -> step outputDir maxWorkers walk osOpen st st' -> run_inv st'.
Proof.
  intros [Hc [Hle [Hcap [Hacc Hph]]]] Hs.
  inversion Hs as
    [ st0 files e Hp Hf | st0 files e Hp Hf Hpool | st0 files cap Hp Hf Hpool
    | st0 cap f rest Hp Hroom | st0 cap f rest e Hp | st0 cap Hp Hz
    | st0 cap Hp Hpos | st0 Hp | st0 l1 t l2 Hin ]; subst;
    unfold run_inv, phase_inv in *;
    try (rewrite Hp in Hph); norm_logs.
  - (* discovery error *)
    destruct Hph as [Hpp Hinf]. rewrite Hinf, Hpp in *. cbn [length procPaths app] in *.
    repeat split; auto; lia.
  - (* pool error *)
    destruct Hph as [Hpp Hinf]. rewrite Hinf, Hpp in *. cbn [length procPaths app] in *.
    repeat split; auto; lia.
  - (* pool created *)
    destruct Hph as [Hpp Hinf]. rewrite Hinf, Hpp in *. cbn [length procPaths app] in *.
    repeat split; auto; try lia. rewrite Hf. reflexivity.
  - (* task submitted *)
    destruct Hph as [Hpp Hpool].
    destruct (ants_NewPool_prealloc _ _ Hpool) as [-> Hmw].
    repeat split.
    + exact Hc.
    + lia.
    + destruct Hroom as [Hm | Hroom]; [lia | lia].
    + intros H0. specialize (Hacc H0).
      destruct (failsTask osOpen (mkTask f outputDir)); cbn; lia.
    + rewrite <- app_assoc. exact Hpp.
    + exact Hpool.
  - (* submission rejected *)
    destruct Hph as [Hpp Hpool].
    repeat split.
    + rewrite Hc. apply u32_inc_nat. lia.
    + lia.
    + exact Hcap.
    + intros H0. lia.
    + rewrite <- app_assoc. exact Hpp.
    + exact Hpool.
  - (* check: zero *)
    destruct Hph as [Hpp Hpool]. rewrite ?app_nil_r in Hpp.
    repeat split; auto.
  - (* check: positive *)
    destruct Hph as [Hpp Hpool]. rewrite ?app_nil_r in Hpp.
    repeat split; auto.
    destruct (Nat.eq_dec (countSubmitErr (logs st) + countTaskErr (logs st)) 0)
      as [E0 | E0]; [| lia].
    rewrite E0 in Hc. cbn in Hc. lia.
  - (* report *)
    destruct Hph as [Hpp Hpos].
    repeat split; auto.
    exists (countSubmitErr (logs st) + countTaskErr (logs st))%nat.
    split; [exact Hc | lia].
  - (* a worker runs a task *)
    rewrite Hin in *.
    destruct (processGzFile_items osOpen t) as [its Hits].
    assert (Hft : failsTask osOpen t = match snd (processGzFile osOpen t) with
                                        | Some _ => true | None => false end)
      by reflexivity.
    unfold runTask.
    destruct (processGzFile osOpen t) as [l [e|]] eqn:Ep;
      cbn [fst snd] in Hits, Hft; subst l; norm_logs.
    + repeat split.
      * rewrite Hc. apply u32_inc_nat. lia.
      * lia.
      * lia.
      * intros H0. specialize (Hacc H0). rewrite Hft in Hacc. cbn in Hacc.
        rewrite <- Hacc. lia.
      * rewrite ?app_nil_r in *.
        destruct (phase st) as [|cap rest| |[e'|e'|n|]];
          try (exfalso; eapply app_cons_not_nil; symmetry; apply (proj2 Hph));
          auto;
          try (destruct Hph as [? ?]; split; auto; lia);
          destruct Hph as [? [k [? ?]]]; split; auto; exists k; split; auto; lia.
    + repeat split.
      * exact Hc.
      * lia.
      * lia.
      * intros H0. specialize (Hacc H0). rewrite Hft in Hacc. cbn in Hacc.
        rewrite <- Hacc. lia.
      * rewrite ?app_nil_r in *.
        destruct (phase st) as [|cap rest| |[e'|e'|n|]];
          try (exfalso; eapply app_cons_not_nil; symmetry; apply (proj2 Hph));
          auto;
          try (destruct Hph as [? ?]; split; auto; lia);
          destruct Hph as [? [k [? ?]]]; split; auto; exists k; split; auto; lia.
Qed.

Lemma run_inv_reach st : reach outputDir maxWorkers walk osOpen st -> run_inv st.
Proof.
  induction 1 as [|st st' R IH Hs].
  - exact run_inv_init.
  - exact (run_inv_step st st' IH Hs).
Qed.

End Invariants.

Lemma countProcessing_procPaths l : countProcessing l = length (procPaths l).
Proof. induction l as [|[] l IH]; simpl; auto. Qed.

Lemma ext_rev_suffix r acc : exists pre, rev r ++ acc = pre ++ ext_rev r acc.
Proof.
  revert acc. induction r as [|c r IH]; intros acc; simpl.
  - exists acc. rewrite app_nil_r. reflexivity.
  - destruct (Ascii.eqb c "/"%char).
    + exists ((rev r ++ [c]) ++ acc). rewrite app_nil_r. reflexivity.
    + destruct (Ascii.eqb c "."%char).
      * exists (rev r). rewrite <- app_assoc. reflexivity.
      * destruct (IH (c :: acc)) as [pre Hpre]. exists pre.
        rewrite <- app_assoc. exact Hpre.
Qed.

Lemma string_of_list_ascii_app a b :
  string_of_list_ascii (a ++ b) = String.append (string_of_list_ascii a) (string_of_list_ascii b).
Proof. induction a as [|c a IH]; simpl; [reflexivity | rewrite IH; reflexivity]. Qed.

Lemma Ext_suffix p : exists q, p = String.append q (Ext p).
Proof.
  destruct (ext_rev_suffix (rev (list_ascii_of_string p)) []) as [pre Hpre].
  rewrite rev_involutive, app_nil_r in Hpre.
  exists (string_of_list_ascii pre). unfold Ext.
  rewrite <- string_of_list_ascii_app, <- Hpre, string_of_list_ascii_of_string.
  reflexivity.
Qed.

Lemma walk_collect_sound evs files p :
  In p (fst (walk_collect evs files)) ->
  In p files \/ (In (WEntry p false) evs /\ Ext p = ".gz").
Proof.
  revert files. induction evs as [|[q d|e] evs IH]; intros files Hin; simpl in *.
  - left; exact Hin.
  - destruct (IH _ Hin) as [Hf | [Hw He]]; [| right; split; auto].
    destruct d; simpl in Hf; [left; exact Hf |].
    destruct (String.eqb_spec (Ext q) ".gz") as [Hq|Hq]; simpl in Hf; [| left; exact Hf].
    apply in_app_or in Hf. destruct Hf as [Hf | [<- | []]]; [left; exact Hf |].
    right; split; auto.
  - left; exact Hin.
Qed.

Lemma walk_collect_complete evs files p :
  (forall e, ~ In (WErr e) evs) ->
  (In p files \/ (In (WEntry p false) evs /\ Ext p = ".gz")) ->
  In p (fst (walk_collect evs files)) /\ snd (walk_collect evs files) = None.
Proof.
  revert files. induction evs as [|[q d|e] evs IH]; intros files Hnoerr Hin; simpl in *.
  - split; [destruct Hin as [H | [[] _]]; exact H | reflexivity].
  - apply IH; [intros e He; apply (Hnoerr e); right; exact He |].
    destruct Hin as [Hf | [[Heq | Hw] He]].
    + left. destruct (andb (negb d) (String.eqb (Ext q) ".gz")); [apply in_or_app; left|]; exact Hf.
    + injection Heq as Hq Hd. subst q d. left. rewrite He. simpl. apply in_or_app. right. left. reflexivity.
    + right; split; assumption.
  - exfalso. apply (Hnoerr e). left. reflexivity.
Qed.

Lemma walk_collect_noerr evs files :
  (forall e, ~ In (WErr e) evs) -> snd (walk_collect evs files) = None.
Proof.
  revert files. induction evs as [|[q d|e] evs IH]; intros files Hnoerr; simpl; auto.
  - apply IH. intros e He. apply (Hnoerr e). right. exact He.
  - exfalso. apply (Hnoerr e). left. reflexivity.
Qed.

(* ------------------------------------------------------------------ *)
(** * A serial run: the worker finishes before the coordinator's check *)

Definition serial_logs : list LogLine :=
  [LProcessing "in/a.gz";
   LTaskErr "in/a.gz" (mkGzErr EHeader "gzip: invalid header" "in/a.gz")].
Definition serial_ran : St := mkSt (PLoop 1 []) 1 [] serial_logs.
Definition serial_report : St := mkSt PReport 1 [] serial_logs.
Definition serial_done : St := mkSt (PDone (RCountErr 1)) 1 [] serial_logs.

Lemma reach_race_submitted : reach "output" 1 one_file bad_header race_submitted.
Proof.
  eapply reach_step; [| exact race_step_2].
  eapply reach_step; [| exact race_step_1].
  apply reach_init.
Qed.

Lemma reach_race_after : reach "output" 1 one_file bad_header race_after.
Proof. eapply reach_step; [exact reach_race_returned | exact race_step_4]. Qed.

Lemma reach_serial_done : reach "output" 1 one_file bad_header serial_done.
Proof.
  eapply reach_step; [| exact (StepReport "output" 1 one_file bad_header serial_report eq_refl)].
  eapply reach_step;
    [| exact (StepCheckPos "output" 1 one_file bad_header serial_ran 1 eq_refl eq_refl)].
  eapply reach_step;
    [| exact (StepWorker "output" 1 one_file bad_header race_submitted [] task_a [] eq_refl)].
  exact reach_race_submitted.
Qed.

(* ------------------------------------------------------------------ *)
(** * More properties of concurrentDecompressMultipleFiles *)

(** The pool bounds concurrency: at every point of a run, at most
    maxWorkers tasks are in flight (none when maxWorkers <= 0). *)
Theorem inflight_bounded_by_pool od mw walk osOpen st :
  reach od mw walk osOpen st ->
  Z.of_nat (length (inflight st)) <= Z.max 0 mw.
Proof. intros R. apply (run_inv_reach od mw walk osOpen st R). Qed.

Lemma inflight_bounded_by_pool_witness :
  reach "output" 1 one_file bad_header race_returned /\
  Z.of_nat (length (inflight race_returned)) <= Z.max 0 1.
Proof.
  split; [exact reach_race_returned |].
  apply (inflight_bounded_by_pool "output" 1 one_file bad_header race_returned).
  exact reach_race_returned.
Defined.

(** The files are attempted one by one in discovery order: during the loop
    the "Processing file" lines followed by the files still to go are the
    discovered list, and once the coordinator has returned a count or nil
    every discovered file has been attempted exactly once, in order. *)
Theorem submissions_follow_discovery_order od mw walk osOpen st :
  reach od mw walk osOpen st ->
  (forall cap rest, phase st = PLoop cap rest ->
     procPaths (logs st) ++ rest = fst (findGzFiles walk)) /\
  ((phase st = PDone ROk \/ exists n, phase st = PDone (RCountErr n)) ->
     procPaths (logs st) = fst (findGzFiles walk)).
Proof.
  intros R. destruct (run_inv_reach od mw walk osOpen st R) as [_ [_ [_ [_ Hph]]]].
  unfold phase_inv in Hph. split.
  - intros cap rest Hp. rewrite Hp in Hph. apply Hph.
  - intros [Hp | [n Hp]]; rewrite Hp in Hph; [exact Hph | apply Hph].
Qed.

Lemma submissions_follow_discovery_order_witness :
  reach "output" 1 one_file bad_header race_returned /\
  (forall cap rest, phase race_returned = PLoop cap rest ->
     procPaths (logs race_returned) ++ rest = fst (findGzFiles one_file)) /\
  ((phase race_returned = PDone ROk \/ exists n, phase race_returned = PDone (RCountErr n)) ->
     procPaths (logs race_returned) = fst (findGzFiles one_file)).
Proof.
  split; [exact reach_race_returned |].
  apply (submissions_follow_discovery_order "output" 1 one_file bad_header race_returned).
  exact reach_race_returned.
Defined.


(** An aggregate error report counts between 1 and the number of
    discovered files (when that number fits the uint32 counter). *)
Theorem reported_count_bounds od mw walk osOpen st n :
  reach od mw walk osOpen st ->
  phase st = PDone (RCountErr n) ->
  Z.of_nat (length (fst (findGzFiles walk))) < 2 ^ 32 ->
  0 < n <= Z.of_nat (length (fst (findGzFiles walk))).
Proof.
  intros R Hp Hsmall.
  destruct (run_inv_reach od mw walk osOpen st R) as [_ [_ [_ [_ Hph]]]].
  unfold phase_inv in Hph. rewrite Hp in Hph.
  destruct Hph as [Hpp [k [Hn Hk]]].
  rewrite countProcessing_procPaths, Hpp in Hk.
  rewrite Hn, mod_zero_small by lia. lia.
Qed.

Lemma reported_count_bounds_witness :
  reach "output" 1 one_file bad_header serial_done /\
  phase serial_done = PDone (RCountErr 1) /\
  Z.of_nat (length (fst (findGzFiles one_file))) < 2 ^ 32 /\
  0 < 1 <= Z.of_nat (length (fst (findGzFiles one_file))).
Proof.
  split; [exact reach_serial_done |]. split; [reflexivity |].
  split; [vm_compute; reflexivity |].
  apply (reported_count_bounds "output" 1 one_file bad_header serial_done 1).
  - exact reach_serial_done.
  - reflexivity.
  - vm_compute; reflexivity.
Defined.


(** Once the coordinator has returned and every submitted task has
    finished, with no submission rejected, the counter holds exactly the
    number of discovered files whose processing fails (modulo 2^32). *)
Theorem drained_counter_counts_failing_files od mw walk osOpen st :
  reach od mw walk osOpen st ->
  countSubmitErr (logs st) = O ->
  inflight st = [] ->
  (phase st = PDone ROk \/ exists n, phase st = PDone (RCountErr n)) ->
  errCount st
  = Z.of_nat (length (filter (file_fails osOpen od) (fst (findGzFiles walk)))) mod 2 ^ 32.
Proof.
  intros R Hsub Hinf Hdone.
  destruct (run_inv_reach od mw walk osOpen st R) as [Hc [_ [_ [Hacc _]]]].
  rewrite (proj2 (submissions_follow_discovery_order od mw walk osOpen st R) Hdone) in Hacc.
  specialize (Hacc Hsub). rewrite Hinf in Hacc. cbn in Hacc.
  unfold failures in Hc. rewrite Hc, Hsub. cbn.
  rewrite Nat.add_0_r in Hacc. rewrite Hacc. reflexivity.
Qed.

Lemma drained_counter_counts_failing_files_witness :
  reach "output" 1 one_file bad_header race_after /\
  countSubmitErr (logs race_after) = O /\
  inflight race_after = [] /\
  (phase race_after = PDone ROk \/ exists n, phase race_after = PDone (RCountErr n)) /\
  errCount race_after
  = Z.of_nat (length (filter (file_fails bad_header "output")
                             (fst (findGzFiles one_file)))) mod 2 ^ 32.
Proof.
  split; [exact reach_race_after |]. split; [reflexivity |]. split; [reflexivity |].
  split; [left; reflexivity |].
  apply (drained_counter_counts_failing_files "output" 1 one_file bad_header race_after).
  - exact reach_race_after.
  - reflexivity.
  - reflexivity.
  - left; reflexivity.
Defined.

(** With main's pool size [runtime.NumCPU() * 2] (NumCPU is at least 1),
    a run never ends with the pool-creation error. *)
Theorem main_pool_never_fails od numCPU walk osOpen st :
  reach od (main_maxWorkers numCPU) walk osOpen st ->
  1 <= numCPU ->
  forall e, phase st <> PDone (RPoolErr e).
Proof.
  intros R Hcpu. induction R as [|st st' R IH Hs]; intros e'; [discriminate |].
  inversion Hs; subst; cbn [phase]; try discriminate.
  - rewrite ants_NewPool_pos in * by (unfold main_maxWorkers; lia). discriminate.
  - rewrite runTask_phase. apply IH.
Qed.

Definition main_loop : St := mkSt (PLoop 2 ["in/a.gz"]) 0 [] [].

Lemma reach_main_loop : reach "output" (main_maxWorkers 1) one_file bad_header main_loop.
Proof.
  eapply reach_step; [apply reach_init |].
  exact (StepPoolOk "output" (main_maxWorkers 1) one_file bad_header init ["in/a.gz"] 2
           eq_refl eq_refl eq_refl).
Qed.

Lemma main_pool_never_fails_witness :
  reach "output" (main_maxWorkers 1) one_file bad_header main_loop /\ 1 <= 1 /\
  (forall e, phase main_loop <> PDone (RPoolErr e)).
Proof.
  split; [exact reach_main_loop |]. split; [lia |].
  apply (main_pool_never_fails "output" 1 one_file bad_header main_loop).
  - exact reach_main_loop.
  - lia.
Defined.

(* ------------------------------------------------------------------ *)
(** * More properties of findGzFiles, processGzFile and the task closure *)

(** Every path findGzFiles returns (also next to an error) is a visited
    non-directory entry whose extension is ".gz", so its name ends in ".gz". *)
Theorem findGzFiles_only_gz_files walk p :
  In p (fst (findGzFiles walk)) ->
  In (WEntry p false) walk /\ Ext p = ".gz" /\ exists q, p = String.append q ".gz".
Proof.
  intros Hin. destruct (walk_collect_sound walk [] p Hin) as [[] | [Hw He]].
  split; [exact Hw | split; [exact He |]].
  destruct (Ext_suffix p) as [q Hq]. exists q. rewrite He in Hq. exact Hq.
Qed.

Lemma findGzFiles_only_gz_files_witness :
  In "in/a.gz" (fst (findGzFiles one_file)) /\
  (In (WEntry "in/a.gz" false) one_file /\ Ext "in/a.gz" = ".gz" /\
   exists q, "in/a.gz" = String.append q ".gz").
Proof.
  split; [left; reflexivity |].
  apply (findGzFiles_only_gz_files one_file "in/a.gz"). left; reflexivity.
Defined.

(** When the walk reports no error, findGzFiles succeeds and returns every
    visited non-directory entry with extension ".gz", and only those. *)
Theorem findGzFiles_complete walk p :
  (forall e, ~ In (WErr e) walk) ->
  snd (findGzFiles walk) = None /\
  (In p (fst (findGzFiles walk)) <-> In (WEntry p false) walk /\ Ext p = ".gz").
Proof.
  intros Hnoerr. split; [apply walk_collect_noerr; exact Hnoerr |]. split.
  - intros Hin. destruct (findGzFiles_only_gz_files walk p Hin) as [Hw [He _]].
    split; assumption.
  - intros H. apply (walk_collect_complete walk [] p Hnoerr). right. exact H.
Qed.

Lemma findGzFiles_complete_witness :
  (forall e, ~ In (WErr e) one_file) /\
  (snd (findGzFiles one_file) = None /\
   (In "in/a.gz" (fst (findGzFiles one_file))
    <-> In (WEntry "in/a.gz" false) one_file /\ Ext "in/a.gz" = ".gz")).
Proof.
  assert (Hn : forall e, ~ In (WErr e) one_file).
  { intros e [H | [H | []]]; discriminate. }
  split; [exact Hn |]. apply (findGzFiles_complete one_file "in/a.gz" Hn).
Defined.

(** processGzFile returns nil exactly when the file opens, its gzip header
    is accepted and every Decode succeeds up to a clean io.EOF. *)
Theorem processGzFile_success_iff osOpen t :
  snd (processGzFile osOpen t) = None <->
  exists s, osOpen (FilePath t) = GzData s /\ stream_ok s = true.
Proof.
  unfold processGzFile. destruct (osOpen (FilePath t)) as [e|e|s]; cbn.
  - split; [discriminate | intros [s [H _]]; discriminate].
  - split; [discriminate | intros [s [H _]]; discriminate].
  - rewrite decodeLoop_spec. cbn. split.
    + intros H. exists s. split; [reflexivity |].
      induction s as [|item rest IH|e]; cbn in *; auto; discriminate.
    + intros [s' [Hs Hok]]. injection Hs as <-.
      rewrite (stream_ok_no_err _ Hok). reflexivity.
Qed.

(** Every line processGzFile writes is a record line tagged with the
    task's path, and every error it returns carries that path. *)
Theorem processGzFile_provenance osOpen t :
  (forall x, In x (fst (processGzFile osOpen t)) -> exists it, x = LItem it (FilePath t)) /\
  (forall e, snd (processGzFile osOpen t) = Some e -> err_path e = FilePath t).
Proof.
  split.
  - intros x Hx. destruct (processGzFile_items osOpen t) as [its Hits].
    rewrite Hits in Hx. apply in_map_iff in Hx. destruct Hx as [it [<- _]].
    exists it. reflexivity.
  - intros e. unfold processGzFile.
    destruct (osOpen (FilePath t)) as [e'|e'|s]; cbn.
    + intros H; injection H as <-; reflexivity.
    + intros H; injection H as <-; reflexivity.
    + rewrite decodeLoop_spec. cbn. destruct (stream_err s); [|discriminate].
      intros H; injection H as <-; reflexivity.
Qed.


(** C9 at a state where a failure has been counted: one "Processing file"
    line, a counter of 1. *)
Lemma failures_bounded_by_submissions_witness :
  reach "output" 1 one_file bad_header race_after /\
  0 <= errCount race_after <= Z.of_nat (countProcessing (logs race_after)).
Proof.
  split; [exact reach_race_after |].
  apply (failures_bounded_by_submissions "output" 1 one_file bad_header race_after).
  exact reach_race_after.
Defined.
